(** * nomenclature.processor.generic: the Aggregator processor

    A shallow embedding of [src/nomenclature/processor/generic.py]
    (the [AggregationItem] record, the [Aggregator] model with its two
    field validators, the derived [rename_mapping], [apply] and the
    [from_file] loader) together with the properties its specification
    states about them. *)

From stdpp Require Import gmap strings list fin_maps.
From Stdlib Require Import ZArith.

Open Scope string_scope.
Open Scope list_scope.
Open Scope nat_scope.
Set Warnings "-register-all,-clear-no-such-hyp".

(** ** Python values and exceptions *)

(** What [yaml.safe_load] can hand to the loader: scalars, sequences and
    mappings.  A [dict] is an association list in insertion order, because
    the loader reads "the first key". *)
Inductive pyval : Type :=
| PNone
| PBool (b : bool)
| PInt (z : Z)
| PStr (s : string)
| PList (l : list pyval)
| PDict (d : list (pyval * pyval)).

(** The context carried by the custom error of [_validate_items]. *)
Record conflict : Type := AggregationMappingConflict {
  conflict_type : string;
  duplicates : list string;
  conflict_file : string
}.

(** One step of an error location, as pydantic reports it. *)
Inductive loc_item : Type :=
| Field (f : string)
| Index (i : nat).

(** One entry of a pydantic [ValidationError]. *)
Inductive line_error : Type :=
| path_not_file (loc : list loc_item)
| string_type (loc : list loc_item)
| list_type (loc : list loc_item)
| custom_error (loc : list loc_item) (ctx : conflict).

Inductive exn : Type :=
| OSError (msg : string)
| YAMLError (msg : string)
| KeyError (key : string)
| IndexError
| TypeError
| AttributeError
| PydanticCustomError (ctx : conflict)
| ValidationError (errors : list line_error)
| ValueError (msg : string) (cause : exn).

(** A computation that returns or raises. *)
Inductive result (A : Type) : Type :=
| Ok (a : A)
| Raise (e : exn).
Arguments Ok {A} a.
Arguments Raise {A} e.

#[global] Instance result_ret : MRet result := λ A a, Ok a.
#[global] Instance result_bind : MBind result := λ A B k r,
  match r with
  | Ok a => k a
  | Raise e => Raise e
  end.

Fixpoint for_each {A B : Type} (f : A → result B) (l : list A) : result (list B) :=
  match l with
  | [] => Ok []
  | x :: l' => y ← f x ; ys ← for_each f l' ; Ok (y :: ys)
  end.

(** ** The data model *)

Record AggregationItem : Type := {
  name : string;
  components : list string
}.

Record Aggregator : Type := {
  file : string;
  dimension : string;
  mapping : list AggregationItem
}.

(** [ValidationInfo]: [data] holds the fields validated so far. *)
Record ValidationInfo : Type := {
  data : gmap string string
}.

(** ** Duplicate detection *)

(** [Counter(items)]: a dict from value to number of occurrences, keys in
    order of first occurrence. *)
Fixpoint Counter_add (x : string) (c : list (string * nat)) : list (string * nat) :=
  match c with
  | [] => [(x, 1)]
  | (k, n) :: c' =>
      if decide (k = x) then (k, S n) :: c' else (k, n) :: Counter_add x c'
  end.

Definition Counter (items : list string) : list (string * nat) :=
  fold_left (λ c x, Counter_add x c) items [].

(** [[item for item, count in Counter(items).items() if count > 1]] *)
Definition duplicates_of (items : list string) : list string :=
  (filter (λ kn, 1 < kn.2) (Counter items)).*1.

Definition _validate_items (items : list string) (info : ValidationInfo)
    (_type : string) : result unit :=
  match duplicates_of items with
  | [] => Ok tt
  | dups =>
      match data info !! "file" with
      | Some f => Raise (PydanticCustomError (AggregationMappingConflict _type dups f))
      | None => Raise (KeyError "file")
      end
  end.

(** ** The field validators of [mapping] *)

Definition validate_target_names (v : list AggregationItem) (info : ValidationInfo)
    : result (list AggregationItem) :=
  _validate_items (name <$> v) info "target" ;;
  Ok v.

Definition all_components (v : list AggregationItem) : list string :=
  fold_left (λ acc item, acc ++ components item) v [].

Definition validate_components (v : list AggregationItem) (info : ValidationInfo)
    : result (list AggregationItem) :=
  _validate_items (all_components v) info "component" ;;
  Ok v.

(** The validators of one field run in the order of their definition, each
    on the value the previous one returned; the first one that raises ends
    the validation of the field. *)
Definition validate_mapping (v : list AggregationItem) (info : ValidationInfo)
    : result (list AggregationItem) :=
  v ← validate_target_names v info ;
  validate_components v info.

(** A custom error raised by a validator becomes one entry of the
    model's [ValidationError]; any other exception leaves as it is. *)
Definition field_outcome {A : Type} (errs : list line_error) (field : string)
    (r : result A) (k : A → result Aggregator) : result Aggregator :=
  match r with
  | Ok v => k v
  | Raise (PydanticCustomError ctx) =>
      Raise (ValidationError (errs ++ [custom_error [Field field] ctx]))
  | Raise e => Raise e
  end.

(** The construction once [file] has passed the check of its type
    [FilePath], that is, for a path that names an existing file: [file] and
    [dimension] are then in [info.data] when the validators of [mapping]
    run.  This is the case of the loader, which constructs with the path of
    the file it has just read.  [Aggregator_new] below is the construction
    for any path. *)
Definition Aggregator_init (file dimension : string) (mapping : list AggregationItem)
    : result Aggregator :=
  let info := {| data := <["dimension" := dimension]> {["file" := file]} |} in
  field_outcome [] "mapping" (validate_mapping mapping info)
    (λ v, Ok {| file := file; dimension := dimension; mapping := v |}).

(** [Aggregator(file=..., dimension=..., mapping=...)] on a path, a string
    and a list of items.  The fields are validated in the order of their
    declaration.  [file: FilePath] must name an existing file, which
    [is_file] decides; when it does not, the field is reported and is left
    out of [info.data], and the validators of [mapping] still run: the
    lookup [info.data["file"]] of [_validate_items] then fails. *)
Definition Aggregator_new (is_file : string → bool) (file dimension : string)
    (mapping : list AggregationItem) : result Aggregator :=
  let '(errs, data0) :=
    if is_file file
    then ([], ({["file" := file]} : gmap string string))
    else ([path_not_file [Field "file"]], ∅) in
  let info := {| data := <["dimension" := dimension]> data0 |} in
  field_outcome errs "mapping" (validate_mapping mapping info)
    (λ v, match errs with
          | [] => Ok {| file := file; dimension := dimension; mapping := v |}
          | _ => Raise (ValidationError errs)
          end).

(** ** The derived view *)

Definition rename_mapping (self : Aggregator) : gmap string string :=
  fold_left
    (λ rename_dict item,
       fold_left (λ rename_dict c, <[c := name item]> rename_dict)
                 (components item) rename_dict)
    (mapping self) ∅.

(** ** Construction from unvalidated input *)

(** Field type [str].  Of the values of [pyval] only a string is accepted;
    a number, a boolean, [None], a list and a dict are refused.  (The bytes
    that pydantic would decode are not among the values of [pyval].) *)
Definition validate_str (loc : list loc_item) (v : pyval) : list line_error + string :=
  match v with
  | PStr s => inr s
  | _ => inl [string_type loc]
  end.

(** Validation of the elements of a sequence: every element is looked at,
    and the errors of all of them are reported together. *)
Fixpoint validate_each {A B : Type} (f : nat → A → list line_error + B)
    (i : nat) (l : list A) : list line_error + list B :=
  match l with
  | [] => inr []
  | x :: l' =>
      match f i x, validate_each f (S i) l' with
      | inr y, inr ys => inr (y :: ys)
      | inl e, inr _ => inl e
      | inr _, inl es => inl es
      | inl e, inl es => inl (e ++ es)
      end
  end.

(** Field type [list[str]].  Of the values of [pyval] only a list is
    accepted, each of its elements as for [str]; a string and a dict are
    refused.  (The tuples and sets that pydantic would also take are not
    among the values of [pyval].) *)
Definition validate_list_str (loc : list loc_item) (v : pyval) : list line_error + list string :=
  match v with
  | PList l => validate_each (λ i x, validate_str (loc ++ [Index i]) x) 0 l
  | _ => inl [list_type loc]
  end.

(** The fields of an [AggregationItem] are declared [name: str] and
    [components: list[str]], with no constraint on their length. *)
Definition AggregationItem_validate (loc : list loc_item) (name components : pyval)
    : list line_error + AggregationItem :=
  match validate_str (loc ++ [Field "name"]) name,
        validate_list_str (loc ++ [Field "components"]) components with
  | inr n, inr cs => inr {| name := n; components := cs |}
  | inl e, inr _ => inl e
  | inr _, inl es => inl es
  | inl e, inl es => inl (e ++ es)
  end.

(** [AggregationItem(name=..., components=...)] *)
Definition AggregationItem_init (name components : pyval) : result AggregationItem :=
  match AggregationItem_validate [] name components with
  | inr item => Ok item
  | inl errs => Raise (ValidationError errs)
  end.

(** [Aggregator(dimension=..., mapping=..., file=...)] as the loader calls
    it: [file] is the relative path of the file the loader has just read,
    which names an existing file and so passes the check of [FilePath], and
    [mapping] is a list of [dict(name=..., components=...)].  Fields are
    validated in the order of their declaration; a field that fails is left
    out of [info.data] and the remaining fields are still validated.  The
    validators of [mapping] run only when the list itself is well-typed. *)
Definition Aggregator_validate (file : string) (dimension : pyval)
    (mapping : list (pyval * pyval)) : result Aggregator :=
  let data0 : gmap string string := {["file" := file]} in
  let '(errs, data1) :=
    match validate_str [Field "dimension"] dimension with
    | inr d => ([], <["dimension" := d]> data0)
    | inl e => (e, data0)
    end in
  match validate_each
          (λ i nc, AggregationItem_validate [Field "mapping"; Index i] nc.1 nc.2)
          0 mapping with
  | inl errs_m => Raise (ValidationError (errs ++ errs_m))
  | inr v =>
      field_outcome errs "mapping" (validate_mapping v {| data := data1 |})
        (λ v, match validate_str [Field "dimension"] dimension with
              | inr d => Ok {| file := file; dimension := d; mapping := v |}
              | inl e => Raise (ValidationError e)
              end)
  end.

(** ** Operations on loaded values *)

(** The value stored under a string key of a dict. *)
Fixpoint dict_get (d : list (pyval * pyval)) (key : string) : option pyval :=
  match d with
  | [] => None
  | (PStr k, v) :: d' => if decide (k = key) then Some v else dict_get d' key
  | _ :: d' => dict_get d' key
  end.

(** [obj[key]] for a string key. *)
Definition getitem (obj : pyval) (key : string) : result pyval :=
  match obj with
  | PDict d =>
      match dict_get d key with
      | Some v => Ok v
      | None => Raise (KeyError key)
      end
  | _ => Raise TypeError
  end.

Fixpoint chars (s : string) : list pyval :=
  match s with
  | EmptyString => []
  | String a s' => PStr (String a EmptyString) :: chars s'
  end.

(** [list(obj)], which is also what [for item in obj] runs over. *)
Definition to_list (obj : pyval) : result (list pyval) :=
  match obj with
  | PList l => Ok l
  | PDict d => Ok d.*1
  | PStr s => Ok (chars s)
  | _ => Raise TypeError
  end.

(** [obj.values()] *)
Definition values (obj : pyval) : result (list pyval) :=
  match obj with
  | PDict d => Ok d.*2
  | _ => Raise AttributeError
  end.

(** [l[0]] *)
Definition first (l : list pyval) : result pyval :=
  match l with
  | x :: _ => Ok x
  | [] => Raise IndexError
  end.

(** ** The loader *)

Section Loader.
(** The world outside the module: opening and parsing a file, the
    provenance utility, and the text [str(error)] of an exception. *)
Variable safe_load : string → result pyval.
Variable get_relative_path : string → string.
Variable str : exn → string.

(** [dict(name=list(item)[0], components=list(item.values())[0])] *)
Definition mapping_entry (item : pyval) : result (pyval * pyval) :=
  keys ← to_list item ;
  name ← first keys ;
  vals ← values item ;
  components ← first vals ;
  Ok (name, components).

(** The body of the [try] block. *)
Definition load_mapping_list (file : string) : result (pyval * list (pyval * pyval)) :=
  mapping_input ← safe_load file ;
  aggregate ← getitem mapping_input "aggregate" ;
  items ← to_list aggregate ;
  mapping_list ← for_each mapping_entry items ;
  Ok (mapping_input, mapping_list).

Definition from_file (file : string) : result Aggregator :=
  match load_mapping_list file with
  | Raise error =>
      Raise (ValueError (str error +:+ " in " +:+ get_relative_path file) error)
  | Ok (mapping_input, mapping_list) =>
      dimension ← getitem mapping_input "dimension" ;
      Aggregator_validate (get_relative_path file) dimension mapping_list
  end.
End Loader.

(** ** The processor *)

(** A method runs on the instance and on the store of the datasets it is
    handed by reference; it returns a value and the two as it leaves them. *)
Definition method (F A : Type) : Type :=
  Aggregator * gmap nat F → A * (Aggregator * gmap nat F).

#[global] Instance method_ret {F} : MRet (method F) := λ A a s, (a, s).
#[global] Instance method_bind {F} : MBind (method F) := λ A B k m s,
  let '(a, s') := m s in k a s'.

(** Reading an attribute or a property of [self]. *)
Definition attr {F A : Type} (f : Aggregator → A) : method F A :=
  λ s, (f s.1, s).

Section Processor.
(** The dataset abstraction: frames live in a store and are passed by
    reference.  [df_rename df m check_duplicates] is the call
    [df.rename(m, check_duplicates=...)]. *)
Variable IamDataFrame : Type.
Variable df_rename :
  nat → gmap string (gmap string string) → bool →
  gmap nat IamDataFrame → result nat * gmap nat IamDataFrame.

Definition call_rename (df : nat) (m : gmap string (gmap string string))
    (check_duplicates : bool) : method IamDataFrame (result nat) :=
  λ s, let '(r, frames) := df_rename df m check_duplicates s.2 in (r, (s.1, frames)).

Definition apply (df : nat) : method IamDataFrame (result nat) :=
  dimension ← attr dimension ;
  rename_mapping ← attr rename_mapping ;
  call_rename df {[dimension := rename_mapping]} false.
End Processor.

(** ** Notions the statements are written with *)

(** Number of occurrences of a value in a sequence. *)
Fixpoint count (x : string) (l : list string) : nat :=
  match l with
  | [] => 0
  | y :: l' => if decide (y = x) then S (count x l') else count x l'
  end.

(** The count a [Counter] holds for a value, 0 when it has no entry. *)
Fixpoint Counter_get (x : string) (c : list (string * nat)) : nat :=
  match c with
  | [] => 0
  | (k, n) :: c' => if decide (k = x) then n else Counter_get x c'
  end.


(** An [AggregationItem] as the dict the loader builds for it. *)
Definition item_dict (item : AggregationItem) : pyval * pyval :=
  (PStr (name item), PList (PStr <$> components item)).

(** ** A sample world

    Files, a provenance utility and exception texts to run the loader on,
    and a dataset whose frames are the label columns of their dimensions. *)

Definition yaml_entry (target : string) (sources : list string) : pyval :=
  PDict [(PStr target, PList (PStr <$> sources))].

Definition yaml_mapping (dim : string) (aggregate : list pyval) : pyval :=
  PDict [(PStr "dimension", PStr dim); (PStr "aggregate", PList aggregate)].

Definition sample_files (file : string) : result pyval :=
  if decide (file = "sector.yaml") then
    Ok (yaml_mapping "Sector"
          [yaml_entry "Fossil" ["Coal"; "Oil"; "Gas"];
           yaml_entry "Renewable" ["Solar"; "Wind"]])
  else if decide (file = "shared_source.yaml") then
    Ok (yaml_mapping "Sector"
          [yaml_entry "Fossil" ["Coal"; "Oil"]; yaml_entry "Other" ["Coal"]])
  else if decide (file = "two_keys.yaml") then
    Ok (yaml_mapping "Sector"
          [PDict [(PStr "Fossil", PList [PStr "Coal"; PStr "Oil"]);
                  (PStr "Ignored", PList [PStr "Gas"])];
           yaml_entry "Renewable" ["Solar"]])
  else if decide (file = "one_key.yaml") then
    Ok (yaml_mapping "Sector"
          [yaml_entry "Fossil" ["Coal"; "Oil"]; yaml_entry "Renewable" ["Solar"]])
  else if decide (file = "no_aggregate.yaml") then
    Ok (PDict [(PStr "dimension", PStr "Sector")])
  else if decide (file = "no_dimension.yaml") then
    Ok (PDict [(PStr "aggregate", PList [yaml_entry "Fossil" ["Coal"]])])
  else Raise (OSError "No such file or directory").

Definition sample_relative_path (file : string) : string := file.

(** The paths of the sample world that name a file. *)
Definition sample_is_file (file : string) : bool :=
  match sample_files file with
  | Ok _ => true
  | Raise _ => false
  end.

Definition sample_str (e : exn) : string :=
  match e with
  | OSError msg | YAMLError msg | ValueError msg _ => msg
  | KeyError key => "'" +:+ key +:+ "'"
  | _ => "error"
  end.

Definition sample_frame : Type := string → list string.

Definition sample_relabel (m : gmap string (gmap string string)) (fr : sample_frame)
    : sample_frame :=
  λ dim, (λ v, default v (m !! dim ≫= (.!! v))) <$> fr dim.

Definition sample_rename (df : nat) (m : gmap string (gmap string string))
    (check_duplicates : bool) (frames : gmap nat sample_frame)
    : result nat * gmap nat sample_frame :=
  match frames !! df with
  | Some fr =>
      let r := fresh (dom frames) in
      (Ok r, <[r := sample_relabel m fr]> frames)
  | None => (Raise AttributeError, frames)
  end.

Definition sample_mapping : list AggregationItem :=
  [ {| name := "Fossil"; components := ["Coal"; "Oil"; "Gas"] |};
    {| name := "Renewable"; components := ["Solar"; "Wind"] |} ].

Definition sample_aggregator : Aggregator :=
  {| file := "sector.yaml"; dimension := "Sector"; mapping := sample_mapping |}.

(** Two items named alike. *)
Definition shared_target : list AggregationItem :=
  [ {| name := "Fossil"; components := ["Coal"] |};
    {| name := "Fossil"; components := ["Oil"] |} ].

(** A source label under two targets. *)
Definition shared_source : list AggregationItem :=
  [ {| name := "Fossil"; components := ["Coal"; "Oil"] |};
    {| name := "Other"; components := ["Coal"] |} ].

(** Both at once. *)
Definition shared_both : list AggregationItem :=
  [ {| name := "Fossil"; components := ["Coal"] |};
    {| name := "Fossil"; components := ["Coal"] |} ].

Definition sample_frames : gmap nat sample_frame :=
  {[ 0 := λ dim, if decide (dim = "Sector") then ["Coal"; "Solar"; "Nuclear"]
                 else ["World"; "World"; "World"] ]}.

(** The distinct values of a sequence, each at the place of its first
    occurrence. *)
Fixpoint first_seen (items : list string) : list string :=
  match items with
  | [] => []
  | x :: items' => x :: filter (λ y, y ≠ x) (first_seen items')
  end.

(** An [AggregationItem] as the element of [aggregate] that declares it:
    a mapping with the one key [name]. *)
Definition item_yaml (item : AggregationItem) : pyval :=
  PDict [item_dict item].

(** * Properties *)

(** ** [Counter] and the duplicates it reports *)

Section CounterFacts.
Implicit Types (x k : string) (c : list (string * nat)) (items : list string).

Lemma Counter_get_add x k c :
  Counter_get k (Counter_add x c)
  = if decide (x = k) then S (Counter_get k c) else Counter_get k c.
Proof.
  induction c as [|[k' n] c IH]; simpl.
  - repeat case_decide; congruence.
  - destruct (decide (k' = x)) as [->|Hx]; simpl.
    + destruct (decide (x = k)); done.
    + destruct (decide (k' = k)) as [->|Hk]; [|apply IH].
      by rewrite decide_False by congruence.
Qed.

Lemma Counter_add_keys x k c :
  k ∈ (Counter_add x c).*1 ↔ k = x ∨ k ∈ c.*1.
Proof.
  induction c as [|[k' n] c IH]; simpl.
  - rewrite elem_of_cons. naive_solver.
  - case_decide; simpl; rewrite !elem_of_cons; [naive_solver|].
    rewrite IH. naive_solver.
Qed.

Lemma Counter_add_NoDup x c : NoDup c.*1 → NoDup (Counter_add x c).*1.
Proof.
  induction c as [|[k' n] c IH]; simpl.
  - intros _. apply NoDup_singleton.
  - rewrite NoDup_cons. intros [Hk Hc]. case_decide; simpl.
    + apply NoDup_cons. done.
    + apply NoDup_cons. split; [|by apply IH].
      rewrite Counter_add_keys. naive_solver.
Qed.

Lemma Counter_fold_get k items c :
  Counter_get k (fold_left (λ c x, Counter_add x c) items c)
  = Counter_get k c + count k items.
Proof.
  revert c. induction items as [|x items IH]; intros c; simpl; [lia|].
  rewrite IH, Counter_get_add. case_decide; lia.
Qed.

Lemma Counter_fold_keys k items c :
  k ∈ (fold_left (λ c x, Counter_add x c) items c).*1 ↔ k ∈ c.*1 ∨ k ∈ items.
Proof.
  revert c. induction items as [|x items IH]; intros c; simpl.
  - rewrite elem_of_nil. naive_solver.
  - rewrite IH, Counter_add_keys, elem_of_cons. naive_solver.
Qed.

Lemma Counter_fold_NoDup items c :
  NoDup c.*1 → NoDup (fold_left (λ c x, Counter_add x c) items c).*1.
Proof.
  revert c. induction items as [|x items IH]; intros c Hc; simpl; [done|].
  by apply IH, Counter_add_NoDup.
Qed.

Lemma Counter_NoDup items : NoDup (Counter items).*1.
Proof. apply Counter_fold_NoDup. constructor. Qed.

Lemma Counter_entry k n c :
  NoDup c.*1 → (k, n) ∈ c ↔ k ∈ c.*1 ∧ Counter_get k c = n.
Proof.
  induction c as [|[k' n'] c IH]; simpl.
  - intros _. rewrite !elem_of_nil. naive_solver.
  - rewrite NoDup_cons. intros [Hk Hc]. rewrite !elem_of_cons, (IH Hc).
    case_decide; subst; [|naive_solver].
    split; [|naive_solver].
    intros [?|[? ?]]; [naive_solver|done].
Qed.

Lemma count_pos k items : 0 < count k items ↔ k ∈ items.
Proof.
  induction items as [|x items IH]; simpl.
  - rewrite elem_of_nil. lia.
  - rewrite elem_of_cons. case_decide; subst; [|naive_solver].
    split; [by left | lia].
Qed.

(** The entries of a [Counter] are the values that occur, each with the
    number of its occurrences. *)
Lemma Counter_spec k n items :
  (k, n) ∈ Counter items ↔ k ∈ items ∧ n = count k items.
Proof.
  rewrite (Counter_entry _ _ _ (Counter_NoDup items)). unfold Counter.
  rewrite Counter_fold_keys, Counter_fold_get. simpl.
  rewrite elem_of_nil. naive_solver.
Qed.

(** The reported duplicates are the values that occur more than once. *)
Lemma duplicates_of_spec k items :
  k ∈ duplicates_of items ↔ 1 < count k items.
Proof.
  unfold duplicates_of. rewrite list_elem_of_fmap. split.
  - intros [[k' n] [-> [Hn Hin]%list_elem_of_filter]].
    apply Counter_spec in Hin as [_ ->]. done.
  - intros Hk. exists (k, count k items). split; [done|].
    apply list_elem_of_filter. split; [done|].
    apply Counter_spec. split; [|done]. apply count_pos. lia.
Qed.

(** Each of them is reported once. *)
Lemma duplicates_of_NoDup items : NoDup (duplicates_of items).
Proof.
  unfold duplicates_of. eapply sublist_NoDup; [apply Counter_NoDup|].
  apply fmap_sublist, sublist_filter.
Qed.

Lemma count_NoDup items : NoDup items ↔ ∀ k, count k items ≤ 1.
Proof.
  induction items as [|x items IH]; simpl.
  - split; [intros _ k; lia | constructor].
  - rewrite NoDup_cons, IH. split.
    + intros [Hx Hle] k. case_decide; subst; [|done].
      assert (¬ 0 < count k items) by by rewrite count_pos. lia.
    + intros Hle. split.
      * intros Hx%count_pos. specialize (Hle x). case_decide; [lia|done].
      * intros k. specialize (Hle k). case_decide; lia.
Qed.

Lemma duplicates_of_nil items : duplicates_of items = [] ↔ NoDup items.
Proof.
  rewrite count_NoDup. split.
  - intros Hnil k. destruct (decide (1 < count k items)) as [Hk|]; [|lia].
    apply duplicates_of_spec in Hk. rewrite Hnil in Hk. by apply elem_of_nil in Hk.
  - intros Hle. destruct (duplicates_of items) as [|k l] eqn:Hd; [done|].
    assert (k ∈ duplicates_of items) as Hk by (rewrite Hd; left).
    apply duplicates_of_spec in Hk. specialize (Hle k). lia.
Qed.
End CounterFacts.

(** ** The conflict validators *)

Section ValidatorFacts.
Implicit Types (v : list AggregationItem) (info : ValidationInfo).

Lemma all_components_fold v acc :
  fold_left (λ acc item, acc ++ components item) v acc
  = acc ++ concat (components <$> v).
Proof.
  revert acc. induction v as [|item v IH]; intros acc; simpl.
  - by rewrite app_nil_r.
  - by rewrite IH, app_assoc.
Qed.

(** The sequence handed to the component check is the concatenation of
    the items' components, in item and within-item order. *)
Lemma all_components_concat v : all_components v = concat (components <$> v).
Proof. apply all_components_fold. Qed.

Lemma elem_of_all_components c v :
  c ∈ all_components v ↔ ∃ item, item ∈ v ∧ c ∈ components item.
Proof.
  rewrite all_components_concat. induction v as [|item v IH]; simpl.
  - rewrite elem_of_nil. split; [done|]. intros (? & []%elem_of_nil & _).
  - rewrite elem_of_app, IH. split.
    + intros [?|(it & ? & ?)]; [exists item | exists it];
        rewrite elem_of_cons; naive_solver.
    + intros (it & [->|?]%elem_of_cons & ?); naive_solver.
Qed.

Lemma _validate_items_distinct items info _type :
  NoDup items → _validate_items items info _type = Ok tt.
Proof.
  intros Hnd%duplicates_of_nil. unfold _validate_items. by rewrite Hnd.
Qed.

Lemma _validate_items_conflict items info _type f k :
  1 < count k items → data info !! "file" = Some f →
  _validate_items items info _type
  = Raise (PydanticCustomError
             (AggregationMappingConflict _type (duplicates_of items) f)).
Proof.
  intros Hk%duplicates_of_spec Hf. unfold _validate_items. rewrite Hf.
  destruct (duplicates_of items); [by apply elem_of_nil in Hk | done].
Qed.

Lemma init_info_file (file dimension : string) :
  (<["dimension" := dimension]> ({["file" := file]} : gmap string string))
    !! "file" = Some file.
Proof. rewrite lookup_insert_ne by done. apply lookup_singleton_eq. Qed.

(** Construction succeeds exactly on the mappings free of conflicts. *)
Lemma Aggregator_init_Ok file dimension v self :
  Aggregator_init file dimension v = Ok self ↔
  NoDup (name <$> v) ∧ NoDup (all_components v)
  ∧ self = {| file := file; dimension := dimension; mapping := v |}.
Proof.
  unfold Aggregator_init, validate_mapping, validate_target_names,
    validate_components.
  destruct (decide (NoDup (name <$> v))) as [Hn|Hn].
  - rewrite (_validate_items_distinct _ _ _ Hn). simpl.
    destruct (decide (NoDup (all_components v))) as [Hc|Hc].
    + rewrite (_validate_items_distinct _ _ _ Hc). simpl. naive_solver.
    + assert (∃ k, 1 < count k (all_components v)) as [k Hk].
      { destruct (duplicates_of (all_components v)) as [|k l] eqn:Hd.
        - by apply duplicates_of_nil in Hd.
        - exists k. apply duplicates_of_spec. rewrite Hd. left. }
      rewrite (_validate_items_conflict _ _ _ file k Hk) by apply init_info_file.
      simpl. naive_solver.
  - assert (∃ k, 1 < count k (name <$> v)) as [k Hk].
    { destruct (duplicates_of (name <$> v)) as [|k l] eqn:Hd.
      - by apply duplicates_of_nil in Hd.
      - exists k. apply duplicates_of_spec. rewrite Hd. left. }
    rewrite (_validate_items_conflict _ _ _ file k Hk) by apply init_info_file.
    simpl. naive_solver.
Qed.

Lemma Aggregator_init_target file dimension v n :
  1 < count n (name <$> v) →
  Aggregator_init file dimension v
  = Raise (ValidationError
             [custom_error [Field "mapping"]
                (AggregationMappingConflict "target"
                   (duplicates_of (name <$> v)) file)]).
Proof.
  intros Hn. unfold Aggregator_init, validate_mapping, validate_target_names.
  by rewrite (_validate_items_conflict _ _ _ file n Hn) by apply init_info_file.
Qed.

Lemma Aggregator_init_component file dimension v c :
  NoDup (name <$> v) → 1 < count c (all_components v) →
  Aggregator_init file dimension v
  = Raise (ValidationError
             [custom_error [Field "mapping"]
                (AggregationMappingConflict "component"
                   (duplicates_of (all_components v)) file)]).
Proof.
  intros Hnd Hc.
  unfold Aggregator_init, validate_mapping, validate_target_names,
    validate_components.
  rewrite (_validate_items_distinct _ _ _ Hnd). simpl.
  by rewrite (_validate_items_conflict _ _ _ file c Hc) by apply init_info_file.
Qed.

Lemma _validate_items_no_file items info _type k :
  1 < count k items → data info !! "file" = None →
  _validate_items items info _type = Raise (KeyError "file").
Proof.
  intros Hk%duplicates_of_spec Hf. unfold _validate_items. rewrite Hf.
  destruct (duplicates_of items); [by apply elem_of_nil in Hk | done].
Qed.

Lemma no_file_info (dimension : string) :
  (<["dimension" := dimension]> (∅ : gmap string string)) !! "file" = None.
Proof. by rewrite lookup_insert_ne, lookup_empty. Qed.

(** For a path that names a file, the construction is [Aggregator_init]. *)
Lemma Aggregator_new_file (is_file : string → bool) file dimension v :
  is_file file = true →
  Aggregator_new is_file file dimension v = Aggregator_init file dimension v.
Proof.
  intros Hf. unfold Aggregator_new, Aggregator_init. rewrite Hf.
  by destruct (validate_mapping v _).
Qed.

(** For a path that does not, a conflict surfaces as the failed lookup of
    [file], and a mapping free of conflicts leaves the error of the path. *)
Lemma Aggregator_new_absent_target (is_file : string → bool) file dimension v n :
  is_file file = false → 1 < count n (name <$> v) →
  Aggregator_new is_file file dimension v = Raise (KeyError "file").
Proof.
  intros Hf Hn. unfold Aggregator_new. rewrite Hf.
  unfold validate_mapping, validate_target_names.
  by rewrite (_validate_items_no_file _ _ _ n Hn) by apply no_file_info.
Qed.

Lemma Aggregator_new_absent_component (is_file : string → bool) file dimension v c :
  is_file file = false → NoDup (name <$> v) → 1 < count c (all_components v) →
  Aggregator_new is_file file dimension v = Raise (KeyError "file").
Proof.
  intros Hf Hnd Hc. unfold Aggregator_new. rewrite Hf.
  unfold validate_mapping, validate_target_names, validate_components.
  rewrite (_validate_items_distinct _ _ _ Hnd). simpl.
  by rewrite (_validate_items_no_file _ _ _ c Hc) by apply no_file_info.
Qed.

Lemma Aggregator_new_absent_clean (is_file : string → bool) file dimension v :
  is_file file = false → NoDup (name <$> v) → NoDup (all_components v) →
  Aggregator_new is_file file dimension v
  = Raise (ValidationError [path_not_file [Field "file"]]).
Proof.
  intros Hf Hn Hc. unfold Aggregator_new. rewrite Hf.
  unfold validate_mapping, validate_target_names, validate_components.
  rewrite (_validate_items_distinct _ _ _ Hn). simpl.
  by rewrite (_validate_items_distinct _ _ _ Hc).
Qed.

Lemma NoDup_or_repeat (items : list string) :
  NoDup items ∨ ∃ k, 1 < count k items.
Proof.
  destruct (duplicates_of items) as [|k l] eqn:Hd.
  - left. by apply duplicates_of_nil.
  - right. exists k. apply duplicates_of_spec. rewrite Hd. left.
Qed.
End ValidatorFacts.

(** C3, as the code has it.  A mapping in which some target name occurs
    in more than one item, given with a [file] that names an existing file,
    is refused at construction with a conflict error of kind [target]; its
    duplicates are exactly the names that occur more than once, each listed
    once.  When all names are pairwise distinct the target-name check
    returns the mapping. *)
Theorem target_conflict (is_file : string → bool) (file dimension : string)
    (mapping : list AggregationItem) :
  (NoDup (name <$> mapping) →
     ∀ info, validate_target_names mapping info = Ok mapping) ∧
  (is_file file = true →
   (∃ n, 1 < count n (name <$> mapping)) →
     ∃ dups,
       Aggregator_new is_file file dimension mapping
       = Raise (ValidationError
                  [custom_error [Field "mapping"]
                     (AggregationMappingConflict "target" dups file)])
       ∧ NoDup dups
       ∧ ∀ n, n ∈ dups ↔ 1 < count n (name <$> mapping)).
Proof.
  split.
  - intros Hnd info. unfold validate_target_names.
    by rewrite _validate_items_distinct.
  - intros Hf [n Hn]. exists (duplicates_of (name <$> mapping)).
    split; [|split; [apply duplicates_of_NoDup | intros ?; apply duplicates_of_spec]].
    rewrite Aggregator_new_file by done. by apply Aggregator_init_target with n.
Qed.

(** C4, as the code has it.  A mapping whose target names are pairwise
    distinct and in which some source label occurs more than once in the
    concatenation of the items' components (in two items, or twice in one),
    given with a [file] that names an existing file, is refused at
    construction with a conflict error of kind [component]; its duplicates
    are exactly the labels that occur more than once. *)
Theorem component_conflict (is_file : string → bool) (file dimension : string)
    (mapping : list AggregationItem) :
  is_file file = true →
  NoDup (name <$> mapping) →
  (∃ c, 1 < count c (concat (components <$> mapping))) →
  ∃ dups,
    Aggregator_new is_file file dimension mapping
    = Raise (ValidationError
               [custom_error [Field "mapping"]
                  (AggregationMappingConflict "component" dups file)])
    ∧ NoDup dups
    ∧ ∀ c, c ∈ dups ↔ 1 < count c (concat (components <$> mapping)).
Proof.
  rewrite <- all_components_concat. intros Hf Hnd [c Hc].
  exists (duplicates_of (all_components mapping)).
  split; [|split; [apply duplicates_of_NoDup | intros ?; apply duplicates_of_spec]].
  rewrite Aggregator_new_file by done. by apply Aggregator_init_component with c.
Qed.

(** C9, as the code has it.  With both a duplicate target name and a
    duplicate source label, the target-name validator raises and the
    component validator is not run: the field validation ends with the
    error of the first.  Given with a [file] that names an existing file,
    the error of the construction has the single entry of kind [target]. *)
Theorem target_conflict_only (is_file : string → bool) (file dimension : string)
    (mapping : list AggregationItem) :
  is_file file = true →
  (∃ n, 1 < count n (name <$> mapping)) →
  (∃ c, 1 < count c (concat (components <$> mapping))) →
  (∀ info e, validate_target_names mapping info = Raise e →
             validate_mapping mapping info = Raise e) ∧
  ∃ dups,
    (∀ n, n ∈ dups ↔ 1 < count n (name <$> mapping)) ∧
    Aggregator_new is_file file dimension mapping
    = Raise (ValidationError
               [custom_error [Field "mapping"]
                  (AggregationMappingConflict "target" dups file)]).
Proof.
  intros Hf [n Hn] _. split.
  - intros info e He. unfold validate_mapping. by rewrite He.
  - exists (duplicates_of (name <$> mapping)).
    split; [intros ?; apply duplicates_of_spec|].
    rewrite Aggregator_new_file by done. by apply Aggregator_init_target with n.
Qed.

(** ** The derived view [rename_mapping] *)

Section RenameFacts.
Implicit Types (m : list AggregationItem) (d : gmap string string) (c : string).

Lemma rename_item_lookup (n : string) (cs : list string) d c :
  fold_left (λ d c', <[c' := n]> d) cs d !! c
  = if decide (c ∈ cs) then Some n else d !! c.
Proof.
  revert d. induction cs as [|c' cs IH]; intros d; cbn [fold_left].
  - by rewrite decide_False by apply not_elem_of_nil.
  - rewrite IH. destruct (decide (c ∈ cs)) as [Hin|Hin].
    + by rewrite decide_True by by right.
    + destruct (decide (c' = c)) as [->|Hne].
      * rewrite lookup_insert_eq. by rewrite decide_True by left.
      * rewrite lookup_insert_ne by done.
        rewrite decide_False; [done|].
        rewrite elem_of_cons. naive_solver.
Qed.

Lemma rename_fold_lookup m d c :
  fold_left
    (λ d item, fold_left (λ d c', <[c' := name item]> d) (components item) d)
    m d !! c
  = match last (filter (λ item, c ∈ components item) m) with
    | Some item => Some (name item)
    | None => d !! c
    end.
Proof.
  revert d. induction m as [|item m IH]; intros d; cbn [fold_left]; [done|].
  rewrite IH, filter_cons, rename_item_lookup.
  destruct (decide (c ∈ components item)) as [Hin|Hin]; [|done].
  rewrite last_cons.
  by destruct (last (filter (λ item0, c ∈ components item0) m)).
Qed.

(** With pairwise distinct flattened components, a label belongs to one
    item only. *)
Lemma component_owner_unique m (item item' : AggregationItem) c :
  NoDup (all_components m) →
  item ∈ m → item' ∈ m → c ∈ components item → c ∈ components item' →
  item = item'.
Proof.
  rewrite all_components_concat.
  induction m as [|a m IH]; simpl; [by intros _ ?%elem_of_nil|].
  rewrite NoDup_app, <- all_components_concat.
  intros (_ & Hdisj & Hnd) [->|Hi]%elem_of_cons [->|Hi']%elem_of_cons Hc Hc'.
  - done.
  - exfalso. apply (Hdisj c Hc), elem_of_all_components. eauto.
  - exfalso. apply (Hdisj c Hc'), elem_of_all_components. eauto.
  - rewrite all_components_concat in Hnd. by apply IH.
Qed.
End RenameFacts.

(** C10. On any item list, conflict-free or not, [rename_mapping] sends a
    source label to the name of the last item, in list order, whose
    components contain it (and has no entry for a label no item
    contains). *)
Theorem rename_mapping_last (self : Aggregator) (c : string) :
  rename_mapping self !! c
  = name <$> last (filter (λ item, c ∈ components item) (mapping self)).
Proof.
  unfold rename_mapping. rewrite rename_fold_lookup, lookup_empty.
  by destruct (last _).
Qed.

(** C2. In an Aggregator that passed the validation of its construction,
    every component of every item is renamed to the name of that item. *)
Theorem rename_mapping_valid (path dim : string)
    (items : list AggregationItem) (self : Aggregator)
    (item : AggregationItem) (c : string) :
  Aggregator_init path dim items = Ok self →
  item ∈ mapping self → c ∈ components item →
  rename_mapping self !! c = Some (name item).
Proof.
  intros (_ & Hnd & ->)%Aggregator_init_Ok Hitem Hc. simpl in Hitem.
  unfold rename_mapping. rewrite rename_fold_lookup. simpl.
  destruct (last (filter (λ item0, c ∈ components item0) items)) as [item'|] eqn:Hl.
  - apply last_Some_elem_of, list_elem_of_filter in Hl as [Hc' Hin'].
    by rewrite (component_owner_unique items item item' c).
  - apply last_None in Hl.
    assert (item ∈ filter (λ item0, c ∈ components item0) items) as Hf
      by by apply list_elem_of_filter.
    rewrite Hl in Hf. by apply elem_of_nil in Hf.
Qed.

(** ** Construction of an [AggregationItem] *)

Lemma validate_each_str (loc : list loc_item) (i : nat) (l : list pyval)
    (ys : list string) :
  validate_each (λ i x, validate_str (loc ++ [Index i]) x) i l = inr ys
  ↔ l = PStr <$> ys.
Proof.
  revert i ys. induction l as [|x l IH]; intros i ys; simpl.
  - split; [intros [= <-]; done | by destruct ys].
  - specialize (IH (S i)).
    destruct (validate_each _ (S i) l) as [es|zs].
    + split.
      * by destruct x.
      * destruct ys as [|y ys]; [done|]. intros [= -> Hys]. by apply IH in Hys.
    + split.
      * destruct x; try done. simpl. intros [= <-]. simpl. f_equal. by apply IH.
      * destruct ys as [|y ys]; [done|]. intros [= -> Hys]. simpl.
        apply IH in Hys. by injection Hys as ->.
Qed.

(** C5, as the code has it.  The construction of an [AggregationItem]
    with an empty [name], or with an empty list of [components], does not
    fail: given a string and a list of strings, empty or not, it returns
    the item that holds them.  No other item is looked at. *)
Theorem AggregationItem_init_accepts (n : string) (cs : list string) :
  AggregationItem_init (PStr n) (PList (PStr <$> cs))
  = Ok {| name := n; components := cs |}
  ∧ AggregationItem_init (PStr "") (PList (PStr <$> cs))
    = Ok {| name := ""; components := cs |}
  ∧ AggregationItem_init (PStr n) (PList [])
    = Ok {| name := n; components := [] |}.
Proof.
  assert (∀ n' cs', AggregationItem_init (PStr n') (PList (PStr <$> cs'))
                    = Ok {| name := n'; components := cs' |}) as Hok.
  { intros n' cs'.
    unfold AggregationItem_init, AggregationItem_validate, validate_list_str.
    simpl. by rewrite (proj2 (validate_each_str [Field "components"] 0 _ cs')). }
  split; [apply Hok|]. split; [apply Hok|]. apply (Hok n []).
Qed.

(** ** The loader *)

Section LoaderFacts.
Variable safe_load : string → result pyval.
Variable get_relative_path : string → string.
Variable str : exn → string.





End LoaderFacts.



(** ** The processor *)

Lemma rename_mapping_None (self : Aggregator) (v : string) :
  rename_mapping self !! v = None
  ↔ ∀ item, item ∈ mapping self → v ∉ components item.
Proof.
  unfold rename_mapping. rewrite rename_fold_lookup, lookup_empty. split.
  - destruct (last _) eqn:Hl; [done|]. intros _ item Hitem Hv.
    apply last_None in Hl.
    assert (item ∈ filter (λ item0, v ∈ components item0) (mapping self)) as Hf
      by by apply list_elem_of_filter.
    rewrite Hl in Hf. by apply elem_of_nil in Hf.
  - intros Hno. destruct (last _) as [item|] eqn:Hl; [|done].
    apply last_Some_elem_of, list_elem_of_filter in Hl as [Hv Hitem].
    by destruct (Hno item Hitem).
Qed.

Section ProcessorFacts.
Variable IamDataFrame : Type.
Variable df_rename :
  nat → gmap string (gmap string string) → bool →
  gmap nat IamDataFrame → result nat * gmap nat IamDataFrame.

(** The labels of a frame along a dimension, row by row. *)
Variable labels : IamDataFrame → string → list string.

Lemma apply_unfold (self : Aggregator) (df : nat) (frames : gmap nat IamDataFrame) :
  apply IamDataFrame df_rename df (self, frames)
  = let out := df_rename df {[dimension self := rename_mapping self]} false frames in
    (out.1, (self, out.2)).
Proof.
  unfold apply, call_rename, attr, mbind, method_bind. simpl.
  by destruct (df_rename _ _ _ _).
Qed.

(** The contract of the dataset's rename when duplicate checking is off:
    the frame it is called on stays as it was, and the frame it returns
    has, row by row, the label the mapping of the dimension gives, or the
    old label where the mapping has none. *)
Hypothesis rename_keeps_input : ∀ df m frames,
  (df_rename df m false frames).2 !! df = frames !! df.
Hypothesis rename_relabels : ∀ df m frames fr r dim,
  frames !! df = Some fr → (df_rename df m false frames).1 = Ok r →
  ∃ fr', (df_rename df m false frames).2 !! r = Some fr'
         ∧ labels fr' dim
           = (λ v, default v (m !! dim ≫= (.!! v))) <$> labels fr dim.

(** C6. [apply] returns what the dataset's rename returns for the
    mapping [{dimension: rename_mapping}] with duplicate checking off.
    The input frame is left as it was; in the returned frame a label of
    the dimension that is a component of an item carries the name
    [rename_mapping] gives it, and a label that is a component of no item
    is unchanged. *)
Theorem apply_renames (self : Aggregator) (df : nat)
    (frames : gmap nat IamDataFrame) :
  let out := apply IamDataFrame df_rename df (self, frames) in
  (out.1, out.2.2)
  = df_rename df {[dimension self := rename_mapping self]} false frames
  ∧ out.2.2 !! df = frames !! df
  ∧ ∀ fr r, frames !! df = Some fr → out.1 = Ok r →
      ∃ fr', out.2.2 !! r = Some fr' ∧
        ∀ i v, labels fr (dimension self) !! i = Some v →
          labels fr' (dimension self) !! i
          = Some (default v (rename_mapping self !! v))
          ∧ ((∀ item, item ∈ mapping self → v ∉ components item) →
             labels fr' (dimension self) !! i = Some v).
Proof.
  intros out. subst out. rewrite apply_unfold. cbn [fst snd].
  split; [by destruct (df_rename _ _ _ _)|].
  split; [apply rename_keeps_input|].
  intros fr r Hfr Hr.
  destruct (rename_relabels _ _ _ _ _ (dimension self) Hfr Hr) as (fr' & Hfr' & Hl).
  exists fr'. split; [done|]. intros i v Hv.
  assert (labels fr' (dimension self) !! i
          = Some (default v (rename_mapping self !! v))) as Hi.
  { rewrite Hl, list_lookup_fmap, Hv. simpl.
    by rewrite lookup_singleton_eq. }
  split; [done|]. intros Hno%rename_mapping_None. by rewrite Hi, Hno.
Qed.

(** C8. [apply] leaves the Aggregator as it found it, whatever the
    dataset does; [rename_mapping] is computed from [mapping] alone, so
    two instances with the same mapping have the same view and a second
    [apply] renames with the same mapping as the first. *)
Theorem apply_reads_only (self : Aggregator) (df : nat)
    (frames : gmap nat IamDataFrame) :
  let out := apply IamDataFrame df_rename df (self, frames) in
  out.2.1 = self
  ∧ file out.2.1 = file self ∧ dimension out.2.1 = dimension self
  ∧ mapping out.2.1 = mapping self
  ∧ rename_mapping out.2.1 = rename_mapping self
  ∧ ∀ other, mapping other = mapping self →
             rename_mapping other = rename_mapping self.
Proof.
  intros out. subst out. rewrite apply_unfold. cbn [fst snd].
  repeat split. intros other Ho. unfold rename_mapping. by rewrite Ho.
Qed.
End ProcessorFacts.

(** ** Construction from the loader's dicts and from typed arguments *)

Lemma AggregationItem_validate_dict (loc : list loc_item) (item : AggregationItem) :
  AggregationItem_validate loc (item_dict item).1 (item_dict item).2 = inr item.
Proof.
  destruct item as [n cs]. unfold AggregationItem_validate. simpl.
  by rewrite (proj2 (validate_each_str (loc ++ [Field "components"]) 0 _ cs)).
Qed.

Lemma validate_each_dicts (i : nat) (v : list AggregationItem) :
  validate_each
    (λ i nc, AggregationItem_validate [Field "mapping"; Index i] nc.1 nc.2)
    i (item_dict <$> v) = inr v.
Proof.
  revert i. induction v as [|item v IH]; intros i; [done|].
  rewrite fmap_cons. cbn [validate_each].
  by rewrite AggregationItem_validate_dict, IH.
Qed.

(** On a string and dicts of the declared shape the loader's construction
    is the construction from typed arguments. *)
Lemma Aggregator_validate_typed (path dim : string) (v : list AggregationItem) :
  Aggregator_validate path (PStr dim) (item_dict <$> v) = Aggregator_init path dim v.
Proof.
  unfold Aggregator_validate, Aggregator_init. simpl.
  by rewrite validate_each_dicts.
Qed.

(** ** The properties on the sample world *)

Lemma sample_rename_keeps_input (df : nat) (m : gmap string (gmap string string))
    (frames : gmap nat sample_frame) :
  (sample_rename df m false frames).2 !! df = frames !! df.
Proof.
  unfold sample_rename. destruct (frames !! df) as [fr|] eqn:Hfr; [|done].
  simpl. rewrite lookup_insert_ne; [done|].
  intros Heq. apply (is_fresh (dom frames)). rewrite Heq.
  by apply elem_of_dom_2 in Hfr.
Qed.

Lemma sample_rename_relabels (df : nat) (m : gmap string (gmap string string))
    (frames : gmap nat sample_frame) (fr : sample_frame) (r : nat) (dim : string) :
  frames !! df = Some fr → (sample_rename df m false frames).1 = Ok r →
  ∃ fr', (sample_rename df m false frames).2 !! r = Some fr'
         ∧ fr' dim = (λ v, default v (m !! dim ≫= (.!! v))) <$> fr dim.
Proof.
  unfold sample_rename. intros ->. simpl. intros [= <-].
  exists (sample_relabel m fr). by rewrite lookup_insert_eq.
Qed.

(** The end-to-end example: [sector.yaml] loaded, then applied to the
    labels Coal, Solar, Nuclear. *)
Example sector_end_to_end :
  from_file sample_files sample_relative_path sample_str "sector.yaml"
  = Ok sample_aggregator
  ∧ let out := apply sample_frame sample_rename 0 (sample_aggregator, sample_frames) in
    out.1 = Ok 1
    ∧ (λ fr : sample_frame, fr "Sector") <$> out.2.2 !! 1
      = Some ["Fossil"; "Renewable"; "Nuclear"]
    ∧ (λ fr : sample_frame, fr "Sector") <$> out.2.2 !! 0
      = Some ["Coal"; "Solar"; "Nuclear"].
Proof. vm_compute. done. Qed.

Example Counter_example :
  Counter ["a"; "b"; "a"; "c"; "b"; "a"] = [("a", 3); ("b", 2); ("c", 1)]
  ∧ duplicates_of ["a"; "b"; "a"; "c"; "b"; "a"] = ["a"; "b"].
Proof. by vm_compute. Qed.

(** A label under two targets goes to the later one. *)
Example rename_mapping_overlap :
  rename_mapping {| file := "f"; dimension := "Sector"; mapping := shared_source |}
    !! "Coal" = Some "Other".
Proof. by vm_compute. Qed.

Lemma target_conflict_witness :
  validate_target_names sample_mapping {| data := ∅ |} = Ok sample_mapping
  ∧ ∃ dups,
      Aggregator_new sample_is_file "sector.yaml" "Sector" shared_target
      = Raise (ValidationError
                 [custom_error [Field "mapping"]
                    (AggregationMappingConflict "target" dups "sector.yaml")])
      ∧ NoDup dups
      ∧ ∀ n, n ∈ dups ↔ 1 < count n (name <$> shared_target).
Proof.
  split.
  - apply (proj1 (target_conflict sample_is_file "sector.yaml" "Sector" sample_mapping)).
    apply (bool_decide_unpack _). vm_compute. exact I.
  - apply (proj2 (target_conflict sample_is_file "sector.yaml" "Sector" shared_target)).
    + reflexivity.
    + exists "Fossil". vm_compute. lia.
Defined.

(** C3 fails as stated: given with a path that names no file, the two
    items named alike make the construction raise the [KeyError] of the
    lookup of [file], not the conflict error. *)
Lemma target_conflict_counterexample :
  (∃ n, 1 < count n (name <$> shared_target))
  ∧ sample_is_file "absent.yaml" = false
  ∧ Aggregator_new sample_is_file "absent.yaml" "Sector" shared_target
    = Raise (KeyError "file")
  ∧ ¬ ∃ dups,
        Aggregator_new sample_is_file "absent.yaml" "Sector" shared_target
        = Raise (ValidationError
                   [custom_error [Field "mapping"]
                      (AggregationMappingConflict "target" dups "absent.yaml")]).
Proof.
  split; [exists "Fossil"; vm_compute; lia|].
  split; [done|]. split; [by vm_compute|].
  intros [dups Hd]. vm_compute in Hd. discriminate Hd.
Qed.

(** C4 fails as stated: with the two items named alike as well, the
    construction reports the conflict of kind [target], not [component];
    and given with a path that names no file, a label under two targets
    makes it raise the [KeyError] of the lookup of [file]. *)
Lemma component_conflict_counterexample :
  ((∃ c, 1 < count c (concat (components <$> shared_both)))
   ∧ sample_is_file "sector.yaml" = true
   ∧ Aggregator_new sample_is_file "sector.yaml" "Sector" shared_both
     = Raise (ValidationError
                [custom_error [Field "mapping"]
                   (AggregationMappingConflict "target" ["Fossil"] "sector.yaml")])
   ∧ ¬ ∃ dups,
         Aggregator_new sample_is_file "sector.yaml" "Sector" shared_both
         = Raise (ValidationError
                    [custom_error [Field "mapping"]
                       (AggregationMappingConflict "component" dups "sector.yaml")]))
  ∧ ((∃ c, 1 < count c (concat (components <$> shared_source)))
     ∧ NoDup (name <$> shared_source)
     ∧ sample_is_file "absent.yaml" = false
     ∧ Aggregator_new sample_is_file "absent.yaml" "Sector" shared_source
       = Raise (KeyError "file")).
Proof.
  split.
  - split; [exists "Coal"; vm_compute; lia|].
    split; [done|]. split; [by vm_compute|].
    intros [dups Hd]. vm_compute in Hd. discriminate Hd.
  - split; [exists "Coal"; vm_compute; lia|].
    split; [apply (bool_decide_unpack _); vm_compute; exact I|].
    split; [done|]. by vm_compute.
Qed.

Lemma component_conflict_witness :
  ∃ dups,
    Aggregator_new sample_is_file "sector.yaml" "Sector" shared_source
    = Raise (ValidationError
               [custom_error [Field "mapping"]
                  (AggregationMappingConflict "component" dups "sector.yaml")])
    ∧ NoDup dups
    ∧ ∀ c, c ∈ dups ↔ 1 < count c (concat (components <$> shared_source)).
Proof.
  apply (component_conflict sample_is_file "sector.yaml" "Sector" shared_source).
  - reflexivity.
  - apply (bool_decide_unpack _). vm_compute. exact I.
  - exists "Coal". vm_compute. lia.
Defined.

Lemma target_conflict_only_witness :
  (∀ info e, validate_target_names shared_both info = Raise e →
             validate_mapping shared_both info = Raise e) ∧
  ∃ dups,
    (∀ n, n ∈ dups ↔ 1 < count n (name <$> shared_both)) ∧
    Aggregator_new sample_is_file "sector.yaml" "Sector" shared_both
    = Raise (ValidationError
               [custom_error [Field "mapping"]
                  (AggregationMappingConflict "target" dups "sector.yaml")]).
Proof.
  apply (target_conflict_only sample_is_file "sector.yaml" "Sector" shared_both).
  - reflexivity.
  - exists "Fossil". vm_compute. lia.
  - exists "Coal". vm_compute. lia.
Defined.

(** C9 fails as stated: given with a path that names no file, the mapping
    with both conflicts makes the construction raise the [KeyError] of the
    lookup of [file]; no conflict error of kind [target] is raised. *)
Lemma target_conflict_only_counterexample :
  (∃ n, 1 < count n (name <$> shared_both))
  ∧ (∃ c, 1 < count c (concat (components <$> shared_both)))
  ∧ sample_is_file "absent.yaml" = false
  ∧ Aggregator_new sample_is_file "absent.yaml" "Sector" shared_both
    = Raise (KeyError "file")
  ∧ ¬ ∃ dups,
        Aggregator_new sample_is_file "absent.yaml" "Sector" shared_both
        = Raise (ValidationError
                   [custom_error [Field "mapping"]
                      (AggregationMappingConflict "target" dups "absent.yaml")]).
Proof.
  split; [exists "Fossil"; vm_compute; lia|].
  split; [exists "Coal"; vm_compute; lia|].
  split; [done|]. split; [by vm_compute|].
  intros [dups Hd]. vm_compute in Hd. discriminate Hd.
Qed.

Lemma rename_mapping_valid_witness :
  rename_mapping sample_aggregator !! "Oil" = Some "Fossil".
Proof.
  apply (rename_mapping_valid "sector.yaml" "Sector" sample_mapping sample_aggregator
           {| name := "Fossil"; components := ["Coal"; "Oil"; "Gas"] |} "Oil").
  - vm_compute. reflexivity.
  - simpl. unfold sample_mapping. left.
  - simpl. right. left.
Defined.

(** C5 fails as stated: an empty name and an empty component list are
    accepted. *)
Lemma AggregationItem_init_counterexample :
  AggregationItem_init (PStr "") (PList [PStr "Coal"])
  = Ok {| name := ""; components := ["Coal"] |}
  ∧ AggregationItem_init (PStr "Fossil") (PList [])
    = Ok {| name := "Fossil"; components := [] |}
  ∧ ¬ ∃ e, AggregationItem_init (PStr "") (PList []) = Raise e.
Proof.
  split; [done|]. split; [done|]. intros [e He]. discriminate He.
Qed.


(** A file without [dimension]: the key is read after the [try] block, and
    the [KeyError] leaves the loader as it is. *)
Example no_dimension_loaded :
  from_file sample_files sample_relative_path sample_str "no_dimension.yaml"
  = Raise (KeyError "dimension").
Proof. by vm_compute. Qed.



(** The element with two keys is loaded as if it had its first key only. *)
Example two_keys_loaded :
  from_file sample_files sample_relative_path sample_str "two_keys.yaml"
  = Ok {| file := "two_keys.yaml"; dimension := "Sector";
          mapping := [ {| name := "Fossil"; components := ["Coal"; "Oil"] |};
                       {| name := "Renewable"; components := ["Solar"] |} ] |}.
Proof. by vm_compute. Qed.

Lemma apply_renames_witness :
  let labels := λ (fr : sample_frame) (dim : string), fr dim in
  let out := apply sample_frame sample_rename 0 (sample_aggregator, sample_frames) in
  (out.1, out.2.2)
  = sample_rename 0 {["Sector" := rename_mapping sample_aggregator]} false sample_frames
  ∧ out.2.2 !! 0 = sample_frames !! 0
  ∧ ∀ fr r, sample_frames !! 0 = Some fr → out.1 = Ok r →
      ∃ fr', out.2.2 !! r = Some fr' ∧
        ∀ i v, labels fr "Sector" !! i = Some v →
          labels fr' "Sector" !! i
          = Some (default v (rename_mapping sample_aggregator !! v))
          ∧ ((∀ item, item ∈ sample_mapping → v ∉ components item) →
             labels fr' "Sector" !! i = Some v).
Proof.
  exact (apply_renames sample_frame sample_rename (λ fr dim, fr dim)
           sample_rename_keeps_input sample_rename_relabels
           sample_aggregator 0 sample_frames).
Defined.

Lemma apply_reads_only_witness :
  (apply sample_frame sample_rename 0 (sample_aggregator, sample_frames)).2.1
  = sample_aggregator
  ∧ rename_mapping {| file := "other.yaml"; dimension := "Region";
                      mapping := sample_mapping |}
    = rename_mapping sample_aggregator.
Proof.
  pose proof (apply_reads_only sample_frame sample_rename sample_aggregator 0
                sample_frames) as (Hself & _ & _ & _ & _ & Hview).
  split; [exact Hself|]. apply Hview. reflexivity.
Defined.

(** * Further properties of the module *)

(** ** Duplicate detection and construction *)

Section DuplicateOrder.
Implicit Types (x k : string) (c : list (string * nat)) (items : list string).

Lemma Counter_add_keys_list x c :
  (Counter_add x c).*1 = if decide (x ∈ c.*1) then c.*1 else c.*1 ++ [x].
Proof.
  induction c as [|[k n] c IH]; [done|]. cbn [Counter_add].
  destruct (decide (k = x)) as [->|Hne].
  - rewrite decide_True by (rewrite fmap_cons; left). done.
  - rewrite !fmap_cons, IH. cbn [fst].
    destruct (decide (x ∈ c.*1)) as [Hin|Hin].
    + by rewrite decide_True by by right.
    + rewrite decide_False; [done|]. rewrite elem_of_cons. naive_solver.
Qed.

Lemma Counter_fold_keys_list items c :
  (fold_left (λ c x, Counter_add x c) items c).*1
  = c.*1 ++ filter (λ y, y ∉ c.*1) (first_seen items).
Proof.
  revert c. induction items as [|x items IH]; intros c; cbn [fold_left first_seen].
  - by rewrite filter_nil, app_nil_r.
  - rewrite IH, Counter_add_keys_list, filter_cons.
    destruct (decide (x ∈ c.*1)) as [Hin|Hin].
    + rewrite decide_False by naive_solver. f_equal.
      rewrite list_filter_filter. apply list_filter_iff. naive_solver.
    + rewrite decide_True by done. rewrite <- app_assoc. f_equal. simpl. f_equal.
      rewrite list_filter_filter. apply list_filter_iff.
      intros y. rewrite elem_of_app, list_elem_of_singleton. naive_solver.
Qed.

Lemma Counter_keys items : (Counter items).*1 = first_seen items.
Proof.
  unfold Counter. rewrite Counter_fold_keys_list. simpl.
  induction (first_seen items) as [|y l IH]; [done|].
  rewrite filter_cons_True by apply not_elem_of_nil. by rewrite IH.
Qed.

Lemma filter_fst_keys (P : string → Prop) `{!∀ k, Decision (P k)}
    (Q : string * nat → Prop) `{!∀ kn, Decision (Q kn)} c :
  (∀ kn, kn ∈ c → Q kn ↔ P kn.1) → (filter Q c).*1 = filter P c.*1.
Proof.
  induction c as [|kn c IH]; intros HQ; [done|].
  rewrite fmap_cons, !filter_cons.
  assert (Q kn ↔ P kn.1) as Hkn by (apply HQ; left).
  assert ((filter Q c).*1 = filter P c.*1) as IH'
    by (apply IH; intros kn' ?; apply HQ; by right).
  destruct (decide (Q kn)), (decide (P kn.1)); try tauto; by rewrite ?fmap_cons, IH'.
Qed.
End DuplicateOrder.

(** X1. The duplicates that [_validate_items] reports are the values that
    occur more than once, each once, in the order in which they first occur
    in the sequence checked. *)
Theorem duplicates_in_first_seen_order (items : list string) :
  duplicates_of items = filter (λ k, 1 < count k items) (first_seen items).
Proof.
  unfold duplicates_of. rewrite <- Counter_keys. apply filter_fst_keys.
  intros [k n] [_ ->]%Counter_spec. done.
Qed.

(** X2. [_validate_items] returns exactly on a sequence without repeats,
    whatever [info] holds.  On a sequence with repeats it raises the
    conflict error with the kind it was given and the file of [info.data];
    when [info.data] has no [file], the lookup itself fails and a
    [KeyError] leaves instead of the conflict. *)
Theorem validate_items_cases (items : list string) (info : ValidationInfo)
    (_type : string) :
  (_validate_items items info _type = Ok tt ↔ NoDup items) ∧
  (∀ f, ¬ NoDup items → data info !! "file" = Some f →
        _validate_items items info _type
        = Raise (PydanticCustomError
                   (AggregationMappingConflict _type (duplicates_of items) f))) ∧
  (¬ NoDup items → data info !! "file" = None →
   _validate_items items info _type = Raise (KeyError "file")).
Proof.
  unfold _validate_items. pose proof (duplicates_of_nil items) as Hnil.
  destruct (duplicates_of items) as [|k l].
  - assert (NoDup items) by by apply Hnil. by repeat split.
  - assert (¬ NoDup items) as Hdup by by intros ?%Hnil.
    split; [|split].
    + by destruct (data info !! "file").
    + by intros f _ ->.
    + by intros _ ->.
Qed.

Lemma Aggregator_init_outcomes (path dim : string) (items : list AggregationItem) :
  Aggregator_init path dim items
  = Ok {| file := path; dimension := dim; mapping := items |}
  ∨ ∃ kind dups,
      (kind = "target" ∨ kind = "component") ∧ dups ≠ [] ∧
      Aggregator_init path dim items
      = Raise (ValidationError
                 [custom_error [Field "mapping"]
                    (AggregationMappingConflict kind dups path)]).
Proof.
  destruct (decide (NoDup (name <$> items))) as [Hn|Hn].
  - destruct (decide (NoDup (all_components items))) as [Hc|Hc].
    + left. by apply Aggregator_init_Ok.
    + right. exists "component", (duplicates_of (all_components items)).
      split; [by right|]. split; [by rewrite duplicates_of_nil|].
      destruct (duplicates_of (all_components items)) as [|c l] eqn:Hd;
        [by apply duplicates_of_nil in Hd|].
      rewrite <- Hd. apply Aggregator_init_component with c; [done|].
      apply duplicates_of_spec. rewrite Hd. left.
  - right. exists "target", (duplicates_of (name <$> items)).
    split; [by left|]. split; [by rewrite duplicates_of_nil|].
    destruct (duplicates_of (name <$> items)) as [|n l] eqn:Hd;
      [by apply duplicates_of_nil in Hd|].
    rewrite <- Hd. apply Aggregator_init_target with n.
    apply duplicates_of_spec. rewrite Hd. left.
Qed.

Lemma Aggregator_new_absent (is_file : string → bool) (path dim : string)
    (items : list AggregationItem) :
  is_file path = false →
  (NoDup (name <$> items) ∧ NoDup (all_components items)
   ∧ Aggregator_new is_file path dim items
     = Raise (ValidationError [path_not_file [Field "file"]]))
  ∨ ((¬ NoDup (name <$> items) ∨ ¬ NoDup (all_components items))
     ∧ Aggregator_new is_file path dim items = Raise (KeyError "file")).
Proof.
  intros Hf. destruct (NoDup_or_repeat (name <$> items)) as [Hn|[n Hn]].
  - destruct (NoDup_or_repeat (all_components items)) as [Hc|[c Hc]].
    + left. split; [done|]. split; [done|]. by apply Aggregator_new_absent_clean.
    + right. split; [|by apply Aggregator_new_absent_component with c].
      right. rewrite count_NoDup. intros Hle. specialize (Hle c). lia.
  - right. split; [|by apply Aggregator_new_absent_target with n].
    left. rewrite count_NoDup. intros Hle. specialize (Hle n). lia.
Qed.

(** X3. The construction of an Aggregator succeeds exactly when [file]
    names an existing file, the target names are pairwise distinct and so
    are the concatenated components; the instance then holds the file, the
    dimension and the items as they were given, in their order. *)
Theorem construction_succeeds_iff (is_file : string → bool) (path dim : string)
    (items : list AggregationItem) (self : Aggregator) :
  Aggregator_new is_file path dim items = Ok self
  ↔ is_file path = true
    ∧ NoDup (name <$> items) ∧ NoDup (concat (components <$> items))
    ∧ self = {| file := path; dimension := dim; mapping := items |}.
Proof.
  rewrite <- all_components_concat. destruct (is_file path) eqn:Hf.
  - rewrite Aggregator_new_file, Aggregator_init_Ok by done. naive_solver.
  - split; [|by intros [? _]].
    destruct (Aggregator_new_absent is_file path dim items Hf)
      as [(_ & _ & ->)|[_ ->]]; done.
Qed.

(** X4. The construction has five outcomes and no other.  With a [file]
    that names an existing file: the instance, one conflict entry of kind
    [target], or one conflict entry of kind [component], the entry carrying
    the file given and a list of duplicates that is not empty.  With a
    [file] that does not: the error of the path when the mapping is free
    of conflicts, and the [KeyError] of the lookup of [file] when it has
    one. *)
Theorem construction_outcomes (is_file : string → bool) (path dim : string)
    (items : list AggregationItem) :
  (is_file path = true
   ∧ (Aggregator_new is_file path dim items
      = Ok {| file := path; dimension := dim; mapping := items |}
      ∨ ∃ kind dups,
          (kind = "target" ∨ kind = "component") ∧ dups ≠ [] ∧
          Aggregator_new is_file path dim items
          = Raise (ValidationError
                     [custom_error [Field "mapping"]
                        (AggregationMappingConflict kind dups path)])))
  ∨ (is_file path = false
     ∧ ((NoDup (name <$> items) ∧ NoDup (concat (components <$> items))
         ∧ Aggregator_new is_file path dim items
           = Raise (ValidationError [path_not_file [Field "file"]]))
        ∨ ((¬ NoDup (name <$> items) ∨ ¬ NoDup (concat (components <$> items)))
           ∧ Aggregator_new is_file path dim items = Raise (KeyError "file")))).
Proof.
  rewrite <- all_components_concat. destruct (is_file path) eqn:Hf.
  - left. split; [done|]. rewrite Aggregator_new_file by done.
    apply Aggregator_init_outcomes.
  - right. split; [done|]. by apply Aggregator_new_absent.
Qed.

(** ** The keys and values of [rename_mapping] *)

Section RenameOrder.
Implicit Types (m : list AggregationItem) (c : string).

Lemma rename_mapping_owner (self : Aggregator) (item : AggregationItem) c :
  NoDup (all_components (mapping self)) →
  item ∈ mapping self → c ∈ components item →
  rename_mapping self !! c = Some (name item).
Proof.
  intros Hnd Hitem Hc. unfold rename_mapping. rewrite rename_fold_lookup.
  destruct (last (filter (λ item0, c ∈ components item0) (mapping self)))
    as [item'|] eqn:Hl.
  - apply last_Some_elem_of, list_elem_of_filter in Hl as [Hc' Hin'].
    by rewrite (component_owner_unique (mapping self) item item' c).
  - apply last_None in Hl.
    assert (item ∈ filter (λ item0, c ∈ components item0) (mapping self)) as Hf
      by by apply list_elem_of_filter.
    rewrite Hl in Hf. by apply elem_of_nil in Hf.
Qed.

Lemma rename_mapping_Some (self : Aggregator) c (n : string) :
  rename_mapping self !! c = Some n →
  ∃ item, item ∈ mapping self ∧ name item = n ∧ c ∈ components item.
Proof.
  unfold rename_mapping. rewrite rename_fold_lookup, lookup_empty.
  destruct (last _) as [item|] eqn:Hl; [|done]. intros [= <-].
  apply last_Some_elem_of, list_elem_of_filter in Hl as [Hc Hin]. eauto.
Qed.

Lemma all_components_Permutation m m' :
  m ≡ₚ m' → all_components m ≡ₚ all_components m'.
Proof.
  rewrite !all_components_concat.
  induction 1 as [|item m1 m2 _ IH|item1 item2 m1|m1 m2 m3 _ IH1 _ IH2]; simpl.
  - done.
  - by rewrite IH.
  - rewrite !app_assoc. f_equiv. apply Permutation_app_comm.
  - by etrans.
Qed.
End RenameOrder.

(** X5. The keys of [rename_mapping] are the source labels that occur in
    the components of some item, and the value under a key is the name of
    an item whose components contain it: a target name is a key only if it
    is itself a component, and nothing is renamed to a label that is not a
    target name. *)
Theorem rename_mapping_keys (self : Aggregator) (c : string) :
  (is_Some (rename_mapping self !! c)
   ↔ c ∈ concat (components <$> mapping self)) ∧
  (∀ n, rename_mapping self !! c = Some n →
        ∃ item, item ∈ mapping self ∧ name item = n ∧ c ∈ components item).
Proof.
  split; [|apply rename_mapping_Some].
  rewrite <- all_components_concat, elem_of_all_components.
  rewrite <- not_eq_None_Some, rename_mapping_None. split.
  - intros Hno. destruct (decide (c ∈ all_components (mapping self))) as [Hin|Hin].
    + by apply elem_of_all_components.
    + destruct Hno. intros item Hitem Hc. apply Hin, elem_of_all_components. eauto.
  - intros (item & Hitem & Hc) Hno. by apply (Hno item).
Qed.

(** X6. When the concatenated components are pairwise distinct,
    [rename_mapping] does not depend on the order of the items: two
    instances whose mappings are permutations of each other rename
    alike. *)
Theorem rename_mapping_order (self other : Aggregator) :
  NoDup (concat (components <$> mapping self)) →
  mapping self ≡ₚ mapping other →
  rename_mapping other = rename_mapping self.
Proof.
  rewrite <- all_components_concat. intros Hnd Hperm. apply map_eq. intros c.
  destruct (rename_mapping self !! c) as [n|] eqn:Hself.
  - apply rename_mapping_Some in Hself as (item & Hitem & <- & Hc).
    apply rename_mapping_owner; [|by rewrite <- Hperm|done].
    by rewrite <- (all_components_Permutation _ _ Hperm).
  - apply rename_mapping_None. intros item Hitem.
    rewrite rename_mapping_None in Hself. apply Hself. by rewrite Hperm.
Qed.

(** X7. Whether the construction succeeds does not depend on the order of
    the items. *)
Theorem construction_order (path dim : string) (items items' : list AggregationItem) :
  items ≡ₚ items' →
  Aggregator_init path dim items
  = Ok {| file := path; dimension := dim; mapping := items |}
  ↔ Aggregator_init path dim items'
    = Ok {| file := path; dimension := dim; mapping := items' |}.
Proof.
  intros Hperm. rewrite !Aggregator_init_Ok.
  assert (NoDup (name <$> items) ↔ NoDup (name <$> items')) as ->
    by by rewrite Hperm.
  assert (NoDup (all_components items) ↔ NoDup (all_components items')) as ->
    by by rewrite (all_components_Permutation _ _ Hperm).
  naive_solver.
Qed.

(** ** What the loader accepts, and what it returns *)

Section LoaderShapes.
Variable safe_load : string → result pyval.
Variable get_relative_path : string → string.
Variable str : exn → string.

Lemma mapping_entry_item_yaml (item : AggregationItem) :
  mapping_entry (item_yaml item) = Ok (item_dict item).
Proof. done. Qed.

Lemma for_each_item_yaml (items : list AggregationItem) :
  for_each mapping_entry (item_yaml <$> items) = Ok (item_dict <$> items).
Proof.
  induction items as [|item items IH]; [done|].
  rewrite !fmap_cons. cbn [for_each]. by rewrite mapping_entry_item_yaml, IH.
Qed.

Lemma AggregationItem_validate_inr (loc : list loc_item) (n cs : pyval)
    (item : AggregationItem) :
  AggregationItem_validate loc n cs = inr item → (n, cs) = item_dict item.
Proof.
  unfold AggregationItem_validate, validate_list_str, item_dict.
  destruct n as [| | |s| |]; simpl;
    try (destruct cs as [| | | |l'|]; simpl; try done;
         by destruct (validate_each _ 0 l')).
  destruct cs as [| | | |l'|]; try done.
  destruct (validate_each _ 0 l') as [|ys] eqn:Hl; [done|].
  intros [= <-]. simpl.
  by apply (validate_each_str (loc ++ [Field "components"])) in Hl as ->.
Qed.

Lemma validate_each_items_inr (i : nat) (ml : list (pyval * pyval))
    (v : list AggregationItem) :
  validate_each
    (λ i nc, AggregationItem_validate [Field "mapping"; Index i] nc.1 nc.2) i ml
  = inr v →
  ml = item_dict <$> v.
Proof.
  revert i v. induction ml as [|[n cs] ml IH]; intros i v; cbn [validate_each].
  - by intros [= <-].
  - destruct (AggregationItem_validate _ _ _) as [e|item] eqn:Hitem;
      destruct (validate_each _ (S i) ml) as [es|v'] eqn:Hml; try done.
    intros [= <-]. apply AggregationItem_validate_inr in Hitem.
    rewrite fmap_cons. f_equal; [done|]. by apply (IH (S i)).
Qed.

Lemma Aggregator_validate_Ok (path : string) (dim : pyval)
    (ml : list (pyval * pyval)) (self : Aggregator) :
  Aggregator_validate path dim ml = Ok self →
  ∃ d v, dim = PStr d ∧ ml = item_dict <$> v ∧ Aggregator_init path d v = Ok self.
Proof.
  unfold Aggregator_validate.
  destruct (validate_each _ 0 ml) as [em|v] eqn:Hml.
  { by destruct (validate_str _ dim). }
  apply validate_each_items_inr in Hml as ->.
  destruct dim as [| | |d| |]; simpl;
    try (by destruct (validate_mapping v _) as [|[]]).
  intros Hinit. by exists d, v.
Qed.

Lemma for_each_stops {A B : Type} (f : A → result B) (good : list A) (bad : A)
    (rest : list A) (e : exn) :
  Forall (λ x, ∃ y, f x = Ok y) good → f bad = Raise e →
  for_each f (good ++ bad :: rest) = Raise e.
Proof.
  intros Hgood Hbad. induction Hgood as [|x good [y Hy] _ IH]; simpl.
  - by rewrite Hbad.
  - by rewrite Hy, IH.
Qed.
End LoaderShapes.

(** X8. A file whose top-level mapping has a string [dimension] and an
    [aggregate] list of one-key elements, each a target name with its list
    of source labels, is loaded as the construction of the Aggregator from
    the relative path, that dimension and those items in their order.
    Other top-level keys of the file are not looked at. *)
Theorem from_file_declared (safe_load : string → result pyval)
    (get_relative_path : string → string) (str : exn → string)
    (path : string) (d : list (pyval * pyval)) (dim : string)
    (items : list AggregationItem) :
  safe_load path = Ok (PDict d) →
  dict_get d "aggregate" = Some (PList (item_yaml <$> items)) →
  dict_get d "dimension" = Some (PStr dim) →
  from_file safe_load get_relative_path str path
  = Aggregator_init (get_relative_path path) dim items.
Proof.
  intros Hd Ha Hdim. unfold from_file, load_mapping_list. rewrite Hd. simpl.
  rewrite Ha. simpl. rewrite for_each_item_yaml. simpl. rewrite Hdim. simpl.
  apply Aggregator_validate_typed.
Qed.

(** X9. Every Aggregator the loader returns satisfies the two uniqueness
    invariants and holds the relative path of the file; its dimension is
    the string under [dimension] and its items are, in order, the first
    key and value of the elements of [aggregate]. *)
Theorem from_file_Ok (safe_load : string → result pyval)
    (get_relative_path : string → string) (str : exn → string)
    (path : string) (self : Aggregator) :
  from_file safe_load get_relative_path str path = Ok self →
  file self = get_relative_path path
  ∧ NoDup (name <$> mapping self)
  ∧ NoDup (concat (components <$> mapping self))
  ∧ ∃ d aggregate elements,
      safe_load path = Ok (PDict d)
      ∧ dict_get d "dimension" = Some (PStr (dimension self))
      ∧ dict_get d "aggregate" = Some aggregate
      ∧ to_list aggregate = Ok elements
      ∧ for_each mapping_entry elements = Ok (item_dict <$> mapping self).
Proof.
  unfold from_file, load_mapping_list.
  destruct (safe_load path) as [mapping_input|] eqn:Hload; [|done]. simpl.
  destruct mapping_input as [| | | | |d]; try done. simpl.
  destruct (dict_get d "aggregate") as [aggregate|] eqn:Ha; [|done]. simpl.
  destruct (to_list aggregate) as [elements|] eqn:Hel; [|done]. simpl.
  destruct (for_each mapping_entry elements) as [ml|] eqn:Hml; [|done]. simpl.
  destruct (dict_get d "dimension") as [dim|] eqn:Hdim; [|done]. simpl.
  intros (dim' & v & -> & -> & Hinit)%Aggregator_validate_Ok.
  apply Aggregator_init_Ok in Hinit as (Hn & Hc & ->). simpl.
  rewrite <- all_components_concat. repeat split; try done.
  by exists d, aggregate, elements.
Qed.

(** X10. [dimension] is read after the [try] block and before the
    construction: when the item list was built and the file has no
    [dimension] key, the loader raises the bare [KeyError] of that lookup,
    not the load error, and the items are never validated. *)
Theorem from_file_no_dimension (safe_load : string → result pyval)
    (get_relative_path : string → string) (str : exn → string)
    (path : string) (d : list (pyval * pyval)) (aggregate : pyval)
    (elements : list pyval) (mapping_list : list (pyval * pyval)) :
  safe_load path = Ok (PDict d) →
  dict_get d "aggregate" = Some aggregate →
  to_list aggregate = Ok elements →
  for_each mapping_entry elements = Ok mapping_list →
  dict_get d "dimension" = None →
  from_file safe_load get_relative_path str path = Raise (KeyError "dimension").
Proof.
  intros Hd Ha Hel Hml Hdim. unfold from_file, load_mapping_list.
  rewrite Hd. simpl. rewrite Ha. simpl. rewrite Hel. simpl. rewrite Hml. simpl.
  by rewrite Hdim.
Qed.


(** X12. The elements of [aggregate] are read in order, and the first one
    that is not a mapping with at least one key ends the load with the
    load error of its failure: [TypeError] for a null, boolean or number,
    [IndexError] for an empty list, mapping or string, [AttributeError] for
    a list or string that is not empty.  The elements after it are not
    read. *)
Theorem from_file_malformed_element (safe_load : string → result pyval)
    (get_relative_path : string → string) (str : exn → string)
    (path : string) (d : list (pyval * pyval)) (aggregate : pyval)
    (good : list pyval) (bad : pyval) (rest : list pyval) :
  safe_load path = Ok (PDict d) →
  dict_get d "aggregate" = Some aggregate →
  to_list aggregate = Ok (good ++ bad :: rest) →
  Forall (λ x, ∃ kv more, x = PDict (kv :: more)) good →
  let load_error e : result Aggregator :=
    Raise (ValueError (str e +:+ " in " +:+ get_relative_path path) e) in
  let loaded := from_file safe_load get_relative_path str path in
  (bad = PNone ∨ (∃ b, bad = PBool b) ∨ (∃ z, bad = PInt z) →
   loaded = load_error TypeError) ∧
  (bad = PList [] ∨ bad = PDict [] ∨ bad = PStr "" →
   loaded = load_error IndexError) ∧
  ((∃ x l, bad = PList (x :: l)) ∨ (∃ a s, bad = PStr (String a s)) →
   loaded = load_error AttributeError).
Proof.
  intros Hd Ha Hel Hgood load_error loaded.
  assert (∀ e, mapping_entry bad = Raise e → loaded = load_error e) as Hbad.
  { intros e He. subst loaded load_error. unfold from_file, load_mapping_list.
    rewrite Hd. simpl. rewrite Ha. simpl. rewrite Hel. simpl.
    rewrite (for_each_stops mapping_entry good bad rest e); [done| |done].
    eapply Forall_impl; [exact Hgood|].
    intros x ([k v] & more & ->). by exists (k, v). }
  split; [|split].
  - intros [->|[[b ->]|[z ->]]]; by apply Hbad.
  - intros [->|[->| ->]]; by apply Hbad.
  - intros [(x & l & ->)|(a & s & ->)]; by apply Hbad.
Qed.

(** ** [apply] on the other dimensions, and applied again *)

Section ApplyFacts.
Variable IamDataFrame : Type.
Variable df_rename :
  nat → gmap string (gmap string string) → bool →
  gmap nat IamDataFrame → result nat * gmap nat IamDataFrame.
Variable labels : IamDataFrame → string → list string.

(** The contract of the dataset's rename when duplicate checking is off, as
    for C6. *)
Hypothesis rename_relabels : ∀ df m frames fr r dim,
  frames !! df = Some fr → (df_rename df m false frames).1 = Ok r →
  ∃ fr', (df_rename df m false frames).2 !! r = Some fr'
         ∧ labels fr' dim
           = (λ v, default v (m !! dim ≫= (.!! v))) <$> labels fr dim.

Lemma apply_labels (self : Aggregator) (df : nat)
    (frames : gmap nat IamDataFrame) (fr : IamDataFrame) (r : nat) (dim : string) :
  frames !! df = Some fr →
  (apply IamDataFrame df_rename df (self, frames)).1 = Ok r →
  (apply IamDataFrame df_rename df (self, frames)).2.1 = self
  ∧ ∃ fr', (apply IamDataFrame df_rename df (self, frames)).2.2 !! r = Some fr'
      ∧ labels fr' dim
        = (λ v, default v
                  ((if decide (dim = dimension self)
                    then rename_mapping self else ∅) !! v))
          <$> labels fr dim.
Proof.
  rewrite apply_unfold. cbn [fst snd]. intros Hfr Hr. split; [done|].
  destruct (rename_relabels _ _ _ _ _ dim Hfr Hr) as (fr' & Hfr' & Hl).
  exists fr'. split; [done|]. rewrite Hl.
  destruct (decide (dim = dimension self)) as [->|Hne];
    apply list_fmap_ext; intros i v _.
  - by rewrite lookup_singleton_eq.
  - by rewrite lookup_singleton_ne, lookup_empty.
Qed.

(** X13. [apply] hands the dataset a mapping for the one dimension of the
    Aggregator: the labels of every other dimension of the returned frame
    are those of the input frame. *)
Theorem apply_other_dimensions (self : Aggregator) (df : nat)
    (frames : gmap nat IamDataFrame) (fr : IamDataFrame) (r : nat) (dim : string) :
  dim ≠ dimension self → frames !! df = Some fr →
  (apply IamDataFrame df_rename df (self, frames)).1 = Ok r →
  ∃ fr', (apply IamDataFrame df_rename df (self, frames)).2.2 !! r = Some fr'
         ∧ labels fr' dim = labels fr dim.
Proof.
  intros Hne Hfr Hr.
  destruct (apply_labels self df frames fr r dim Hfr Hr) as (_ & fr' & Hfr' & Hl).
  exists fr'. split; [done|]. rewrite Hl, decide_False by done.
  rewrite <- (list_fmap_id (labels fr dim)) at 2. apply list_fmap_ext.
  intros i v _. by rewrite lookup_empty.
Qed.

(** X14. When no target name is also a source label, applying the
    Aggregator to the frame it returned changes no label of its dimension:
    the second application relabels nothing. *)
Theorem apply_twice (self : Aggregator) (df : nat)
    (frames : gmap nat IamDataFrame) (fr : IamDataFrame) (r1 r2 : nat) :
  (∀ item item', item ∈ mapping self → item' ∈ mapping self →
                 name item ∉ components item') →
  frames !! df = Some fr →
  let out1 := apply IamDataFrame df_rename df (self, frames) in
  out1.1 = Ok r1 →
  let out2 := apply IamDataFrame df_rename r1 out1.2 in
  out2.1 = Ok r2 →
  ∃ fr1 fr2,
    out1.2.2 !! r1 = Some fr1 ∧ out2.2.2 !! r2 = Some fr2
    ∧ labels fr2 (dimension self) = labels fr1 (dimension self).
Proof.
  intros Hsep Hfr out1 Hr1 out2 Hr2. subst out2.
  destruct (apply_labels self df frames fr r1 (dimension self) Hfr Hr1)
    as (Hself & fr1 & Hfr1 & Hl1).
  fold out1 in Hself, Hfr1. destruct out1 as [res1 [self1 frames1]].
  simpl in Hself, Hfr1, Hr1, Hr2 |- *. subst self1.
  destruct (apply_labels self r1 frames1 fr1 r2 (dimension self) Hfr1 Hr2)
    as (_ & fr2 & Hfr2 & Hl2).
  exists fr1, fr2. split; [done|]. split; [done|].
  rewrite Hl2, Hl1, <- list_fmap_compose, decide_True by done.
  apply list_fmap_ext. intros i v _. simpl.
  destruct (rename_mapping self !! v) as [n|] eqn:Hv; simpl; [|by rewrite Hv].
  apply rename_mapping_Some in Hv as (item & Hitem & <- & _).
  assert (rename_mapping self !! name item = None) as ->; [|done].
  apply rename_mapping_None. intros item' Hitem'. by apply Hsep.
Qed.
End ApplyFacts.

(** ** The further properties on the sample world *)

Lemma validate_items_cases_witness :
  _validate_items ["Coal"; "Oil"] {| data := ∅ |} "component" = Ok tt
  ∧ _validate_items ["Coal"; "Oil"; "Coal"] {| data := {["file" := "sector.yaml"]} |}
      "component"
    = Raise (PydanticCustomError
               (AggregationMappingConflict "component"
                  (duplicates_of ["Coal"; "Oil"; "Coal"]) "sector.yaml"))
  ∧ _validate_items ["Coal"; "Oil"; "Coal"] {| data := ∅ |} "component"
    = Raise (KeyError "file").
Proof.
  assert (¬ NoDup ["Coal"; "Oil"; "Coal"]) as Hdup
    by (apply (bool_decide_unpack _); vm_compute; exact I).
  split; [|split].
  - apply (proj1 (validate_items_cases ["Coal"; "Oil"] {| data := ∅ |} "component")).
    apply (bool_decide_unpack _). vm_compute. exact I.
  - apply (proj1 (proj2 (validate_items_cases ["Coal"; "Oil"; "Coal"]
                           {| data := {["file" := "sector.yaml"]} |} "component")));
      [exact Hdup | reflexivity].
  - apply (proj2 (proj2 (validate_items_cases ["Coal"; "Oil"; "Coal"]
                           {| data := ∅ |} "component")));
      [exact Hdup | reflexivity].
Defined.

Lemma rename_mapping_keys_witness :
  ∃ item, item ∈ sample_mapping ∧ name item = "Renewable" ∧ "Wind" ∈ components item.
Proof.
  apply (proj2 (rename_mapping_keys sample_aggregator "Wind") "Renewable").
  vm_compute. reflexivity.
Defined.

Lemma rename_mapping_order_witness :
  rename_mapping
    {| file := "sector.yaml"; dimension := "Sector";
       mapping := [ {| name := "Renewable"; components := ["Solar"; "Wind"] |};
                    {| name := "Fossil"; components := ["Coal"; "Oil"; "Gas"] |} ] |}
  = rename_mapping sample_aggregator.
Proof.
  apply rename_mapping_order.
  - apply (bool_decide_unpack _). vm_compute. exact I.
  - simpl. apply perm_swap.
Defined.

Lemma construction_order_witness :
  Aggregator_init "sector.yaml" "Sector" shared_source
  = Ok {| file := "sector.yaml"; dimension := "Sector"; mapping := shared_source |}
  ↔ Aggregator_init "sector.yaml" "Sector"
      [ {| name := "Other"; components := ["Coal"] |};
        {| name := "Fossil"; components := ["Coal"; "Oil"] |} ]
    = Ok {| file := "sector.yaml"; dimension := "Sector";
            mapping := [ {| name := "Other"; components := ["Coal"] |};
                         {| name := "Fossil"; components := ["Coal"; "Oil"] |} ] |}.
Proof. apply construction_order. apply perm_swap. Defined.

Lemma from_file_declared_witness :
  from_file sample_files sample_relative_path sample_str "sector.yaml"
  = Aggregator_init "sector.yaml" "Sector" sample_mapping.
Proof.
  apply (from_file_declared sample_files sample_relative_path sample_str
           "sector.yaml"
           [(PStr "dimension", PStr "Sector");
            (PStr "aggregate", PList (item_yaml <$> sample_mapping))]);
    reflexivity.
Defined.

Lemma from_file_Ok_witness :
  file sample_aggregator = "sector.yaml"
  ∧ NoDup (name <$> mapping sample_aggregator)
  ∧ NoDup (concat (components <$> mapping sample_aggregator))
  ∧ ∃ d aggregate elements,
      sample_files "sector.yaml" = Ok (PDict d)
      ∧ dict_get d "dimension" = Some (PStr (dimension sample_aggregator))
      ∧ dict_get d "aggregate" = Some aggregate
      ∧ to_list aggregate = Ok elements
      ∧ for_each mapping_entry elements = Ok (item_dict <$> mapping sample_aggregator).
Proof.
  apply (from_file_Ok sample_files sample_relative_path sample_str "sector.yaml").
  vm_compute. reflexivity.
Defined.

Lemma from_file_no_dimension_witness :
  from_file sample_files sample_relative_path sample_str "no_dimension.yaml"
  = Raise (KeyError "dimension").
Proof.
  apply (from_file_no_dimension sample_files sample_relative_path sample_str
           "no_dimension.yaml"
           [(PStr "aggregate", PList [yaml_entry "Fossil" ["Coal"]])]
           (PList [yaml_entry "Fossil" ["Coal"]])
           [yaml_entry "Fossil" ["Coal"]]
           [(PStr "Fossil", PList [PStr "Coal"])]);
    reflexivity.
Defined.


(** [aggregate] written as a mapping instead of a list: its keys are read
    as the elements, and a key is a string, not a mapping. *)
Lemma from_file_malformed_element_witness :
  from_file (λ _, Ok (PDict [(PStr "dimension", PStr "Sector");
                             (PStr "aggregate",
                              PDict [(PStr "Fossil", PList [PStr "Coal"])])]))
    sample_relative_path sample_str "mapping.yaml"
  = Raise (ValueError "error in mapping.yaml" AttributeError).
Proof.
  apply (proj2 (proj2
           (from_file_malformed_element _ sample_relative_path sample_str
              "mapping.yaml"
              [(PStr "dimension", PStr "Sector");
               (PStr "aggregate", PDict [(PStr "Fossil", PList [PStr "Coal"])])]
              (PDict [(PStr "Fossil", PList [PStr "Coal"])])
              [] (PStr "Fossil") []
              eq_refl eq_refl eq_refl (List.Forall_nil _)))).
  right. eexists _, _. reflexivity.
Defined.

Lemma apply_other_dimensions_witness :
  ∃ fr', (apply sample_frame sample_rename 0 (sample_aggregator, sample_frames)).2.2
           !! 1 = Some fr'
         ∧ fr' "Region" = ["World"; "World"; "World"].
Proof.
  assert ("Region" ≠ "Sector") as Hne by discriminate.
  assert ((apply sample_frame sample_rename 0 (sample_aggregator, sample_frames)).1
          = Ok 1) as Hr by (vm_compute; reflexivity).
  exact (apply_other_dimensions sample_frame sample_rename (λ fr dim, fr dim)
           sample_rename_relabels sample_aggregator 0 sample_frames
           (λ dim, if decide (dim = "Sector") then ["Coal"; "Solar"; "Nuclear"]
                   else ["World"; "World"; "World"])
           1 "Region" Hne eq_refl Hr).
Defined.

Lemma apply_twice_witness :
  let out1 := apply sample_frame sample_rename 0 (sample_aggregator, sample_frames) in
  let out2 := apply sample_frame sample_rename 1 out1.2 in
  ∃ fr1 fr2,
    out1.2.2 !! 1 = Some fr1 ∧ out2.2.2 !! 2 = Some fr2
    ∧ fr2 "Sector" = fr1 "Sector".
Proof.
  apply (apply_twice sample_frame sample_rename (λ fr dim, fr dim)
           sample_rename_relabels sample_aggregator 0 sample_frames
           (λ dim, if decide (dim = "Sector") then ["Coal"; "Solar"; "Nuclear"]
                   else ["World"; "World"; "World"])
           1 2).
  - intros item item' Hi Hi'. simpl in Hi, Hi'. unfold sample_mapping in Hi, Hi'.
    repeat (apply elem_of_cons in Hi as [->|Hi]);
      try (by apply elem_of_nil in Hi);
      repeat (apply elem_of_cons in Hi' as [->|Hi']);
      try (by apply elem_of_nil in Hi');
      apply (bool_decide_unpack _); vm_compute; exact I.
  - reflexivity.
  - vm_compute. reflexivity.
  - vm_compute. reflexivity.
Defined.
